(** * EnViT5 translation service: a shallow embedding of [main.py]

    The service wraps a sequence-to-sequence translation model behind one
    endpoint.  This development embeds the request model, the two string
    helpers and the [translate] handler, and proves the properties the
    specification states about them. *)

From Stdlib Require Import String Ascii List NArith ZArith Bool Lia.
Import ListNotations.

Set Implicit Arguments.

(** ** Python strings

    A Python [str] is a sequence of Unicode code points.  Slicing never
    raises: [s[n:]] past the end is the empty string, as [skipn] is. *)

Definition char := N.
Definition str := list char.

(** ASCII literals of the source, as code points. *)
Definition lit (s : string) : str := map N_of_ascii (list_ascii_of_string s).

(** [str.isspace] on one code point: the characters CPython's
    [_PyUnicode_IsWhitespace] lists, which are the ones [str.strip()]
    removes when it is called without an argument. *)
Definition isspace (c : char) : bool :=
  ((9 <=? c) && (c <=? 13) ||
   (28 <=? c) && (c <=? 32) ||
   (c =? 133) || (c =? 160) || (c =? 5760) ||
   (8192 <=? c) && (c <=? 8202) ||
   (c =? 8232) || (c =? 8233) || (c =? 8239) || (c =? 8287) ||
   (c =? 12288))%N.

(** [str.lstrip()] *)
Fixpoint lstrip (s : str) : str :=
  match s with
  | [] => []
  | c :: cs => if isspace c then lstrip cs else s
  end.

(** [str.rstrip()]: the trailing run of whitespace is dropped. *)
Fixpoint rstrip (s : str) : str :=
  match s with
  | [] => []
  | c :: cs =>
      match rstrip cs with
      | [] => if isspace c then [] else [c]
      | r => c :: r
      end
  end.

(** [str.strip()] *)
Definition strip (s : str) : str := rstrip (lstrip s).

(** [str.startswith(prefix)] *)
Fixpoint startswith (s prefix : str) {struct prefix} : bool :=
  match prefix, s with
  | [], _ => true
  | _ :: _, [] => false
  | p :: ps, c :: cs => N.eqb c p && startswith cs ps
  end.

(** ** Request and response models *)

(** [class LanguageEnum(str, Enum)] *)
Inductive LanguageEnum := en | vi.

Definition value (l : LanguageEnum) : str :=
  match l with
  | en => lit "en"
  | vi => lit "vi"
  end.

(** [class TranslateRequest(BaseModel)].  [max_length] is declared
    [int | None], so a validated request may hold [None]. *)
Record TranslateRequest := {
  text : str;
  source_lang : LanguageEnum;
  max_length : option Z
}.

(** [class TranslateResponse(BaseModel)]: both fields are required. *)
Record TranslateResponse := {
  translated_text : str;
  raw_output : str
}.

(** ** Helper functions *)

(** [f"{source_lang.value}: {text}"] *)
Definition _build_model_input (text : str) (source_lang : LanguageEnum) : str :=
  value source_lang ++ lit ": " ++ text.

(** The loop [for prefix in ("en:", "vi:")] of [_strip_lang_prefix],
    over the prefixes still to try. *)
Fixpoint strip_prefix_loop (prefixes : list str) (output : str) : str :=
  match prefixes with
  | [] => strip output
  | prefix :: rest =>
      if startswith output prefix
      then strip (skipn (length prefix) output)
      else strip_prefix_loop rest output
  end.

Definition _strip_lang_prefix (output : str) : str :=
  strip_prefix_loop [lit "en:"; lit "vi:"] output.

(** Whether the output begins with one of the two recognised prefixes. *)
Definition has_lang_prefix (output : str) : bool :=
  startswith output (lit "en:") || startswith output (lit "vi:").

(** ** Request validation

    The handler's parameter is typed [TranslateRequest], so the framework
    builds the request from the body before the handler runs and answers
    with a validation error (one entry per offending field) otherwise.
    The declarations of the fields are what is embedded here:
    [text: str = Field(...)], [source_lang: LanguageEnum = Field(...)] and
    [max_length: int | None = Field(256, ge=1, le=512)].  No field is
    declared strict, so [max_length] takes the values the library
    converts to an integer. *)

(** What a body carries for [max_length]: nothing, or a JSON value:
    [null], an integer, [true] or [false], a number written with a
    fraction or an exponent (a float, here the finite value [num / den]),
    a string, or an array or object. *)
Inductive RawMaxLength :=
| Absent
| Null
| IntValue (n : Z)
| BoolValue (b : bool)
| FloatValue (num : Z) (den : positive)
| StrValue (s : str)
| OtherValue.

(** How the validation library reads an integer in a string.  The field
    is not declared strict, so a string goes through the library's
    parser, which is no code of this service: it is a parameter of the
    validation. *)
Definition IntParser : Type := str -> option Z.

(** A request body: [None] is a missing key. *)
Record RawBody := {
  raw_text : option str;
  raw_source_lang : option str;
  raw_max_length : RawMaxLength
}.

Inductive FieldName := f_text | f_source_lang | f_max_length.

Inductive ErrorKind :=
| missing
| enum (permitted : list str)
| greater_than_equal (ge : Z)
| less_than_equal (le : Z)
| int_parsing
| int_from_float
| int_type.

Definition FieldError : Type := FieldName * ErrorKind.

Fixpoint str_eqb (a b : str) : bool :=
  match a, b with
  | [], [] => true
  | x :: a', y :: b' => N.eqb x y && str_eqb a' b'
  | _, _ => false
  end.

Definition validate_text (v : option str) : ErrorKind + str :=
  match v with
  | None => inl missing
  | Some s => inr s
  end.

Definition validate_source_lang (v : option str) : ErrorKind + LanguageEnum :=
  match v with
  | None => inl missing
  | Some s =>
      if str_eqb s (value en) then inr en
      else if str_eqb s (value vi) then inr vi
      else inl (enum [value en; value vi])
  end.

(** The integer validation of a field that is not strict: an integer is
    itself, a boolean is 1 or 0, a float must have no fractional part, a
    string must parse, anything else is no integer.  ([Absent] never
    reaches it, and [None] is taken by the [None] branch of the type.) *)
Definition lax_int (str_as_int : IntParser) (v : RawMaxLength) : ErrorKind + Z :=
  match v with
  | IntValue n => inr n
  | BoolValue b => inr (if b then 1%Z else 0%Z)
  | FloatValue num den =>
      if (num mod Zpos den =? 0)%Z then inr (num / Zpos den)%Z
      else inl int_from_float
  | StrValue s =>
      match str_as_int s with
      | Some n => inr n
      | None => inl int_parsing
      end
  | Absent | Null | OtherValue => inl int_type
  end.

(** [ge=1, le=512] *)
Definition check_bounds (n : Z) : ErrorKind + option Z :=
  if (n <? 1)%Z then inl (greater_than_equal 1)
  else if (512 <? n)%Z then inl (less_than_equal 512)
  else inr (Some n).

(** [max_length: int | None = Field(256, ge=1, le=512)]: the default is
    taken as it is, [None] is a value of the type, and any other value
    must validate as an integer within the bounds. *)
Definition validate_max_length (str_as_int : IntParser) (v : RawMaxLength)
  : ErrorKind + option Z :=
  match v with
  | Absent => inr (Some 256%Z)
  | Null => inr None
  | _ =>
      match lax_int str_as_int v with
      | inl k => inl k
      | inr n => check_bounds n
      end
  end.

Definition field_errors {A} (f : FieldName) (r : ErrorKind + A) : list FieldError :=
  match r with
  | inl k => [(f, k)]
  | inr _ => []
  end.

Definition validate (str_as_int : IntParser) (b : RawBody)
  : list FieldError + TranslateRequest :=
  let rt := validate_text (raw_text b) in
  let rd := validate_source_lang (raw_source_lang b) in
  let rm := validate_max_length str_as_int (raw_max_length b) in
  match rt, rd, rm with
  | inr t, inr d, inr m =>
      inr {| text := t; source_lang := d; max_length := m |}
  | _, _, _ =>
      inl (field_errors f_text rt ++ field_errors f_source_lang rd
           ++ field_errors f_max_length rm)
  end.

(** ** The model capability and the handler's effects *)

(** An exception raised by the tokenizer or the model: whether it is an
    instance of [Exception] (and not of [BaseException] only), and its
    [str(e)]. *)
Record PyErr := {
  is_Exception : bool;
  message : str
}.

Definition IndexError : PyErr :=
  {| is_Exception := true; message := lit "list index out of range" |}.

(** How a call of the endpoint ends when it does not return a response. *)
Inductive Fault :=
| RequestValidationError (errors : list FieldError)
| HTTPException (status_code : Z) (detail : str)
| Unhandled (e : PyErr).

(** [x or d] on an [int | None]: [None] and [0] are falsy. *)
Definition or_default (x : option Z) (d : Z) : Z :=
  match x with
  | None => d
  | Some n => if (n =? 0)%Z then d else n
  end.

Section Pipeline.

(** The tensors the tokenizer returns and the token ids the model
    returns are opaque to the service. *)
Variables Encoding OutputIds : Type.

(** The process-wide [tokenizer] and [model], as the three calls the
    handler makes.  Each is called at most once per request, so a
    function of the arguments covers every behaviour of one call. *)
Record Capability := {
  (** [tokenizer(batch, return_tensors="pt", padding=True,
      truncation=True).to(device)] *)
  tokenizer : list str -> PyErr + Encoding;
  (** [model.generate] on the unpacked inputs and the keyword arguments,
      under [torch.no_grad()] *)
  model_generate : Encoding -> list (string * Z) -> PyErr + OutputIds;
  (** [tokenizer.batch_decode(output_ids, skip_special_tokens=True)] *)
  tokenizer_batch_decode : OutputIds -> PyErr + list str
}.

(** The calls made on the capability, in order. *)
Inductive Event :=
| tokenizer_call (batch : list str)
| generate_call (inputs : Encoding) (kwargs : list (string * Z))
| batch_decode_call (output_ids : OutputIds).

(** A computation of the handler: the calls it made, and either the
    fault it ended with or its value. *)
Definition Run (A : Type) : Type := (list Event * (Fault + A))%type.

Definition ret {A} (a : A) : Run A := ([], inr a).

Definition raise {A} (f : Fault) : Run A := ([], inl f).

Definition bind {A B} (m : Run A) (k : A -> Run B) : Run B :=
  match m with
  | (t, inl f) => (t, inl f)
  | (t, inr a) => let '(t', r) := k a in (t ++ t', r)
  end.

(** A call of the capability: logged, and its exception propagates. *)
Definition call {A} (ev : Event) (r : PyErr + A) : Run A :=
  ([ev], match r with
         | inl e => inl (Unhandled e)
         | inr a => inr a
         end).

(** [try: body / except Exception as e: handler]: exceptions that are
    not instances of [Exception] pass through.  The body in the handler
    is the one call of the model, whose exceptions are [PyErr] values. *)
Definition try_except_Exception {A} (body : Run A) (handler : PyErr -> Run A)
  : Run A :=
  match body with
  | (t, inl (Unhandled e)) =>
      if is_Exception e
      then let '(t', r) := handler e in (t ++ t', r)
      else body
  | _ => body
  end.

(** [l[0]] *)
Definition index0 {A} (l : list A) : Run A :=
  match l with
  | [] => raise (Unhandled IndexError)
  | x :: _ => ret x
  end.

Notation "x <- m ;; k" := (bind m (fun x => k))
  (at level 61, m at next level, right associativity).

(** The handler of [POST /translate]. *)
Definition translate (cap : Capability) (req : TranslateRequest)
  : Run TranslateResponse :=
  let input_text := _build_model_input (text req) (source_lang req) in
  inputs <- call (tokenizer_call [input_text]) (tokenizer cap [input_text]) ;;
  let kwargs := [("max_length"%string, or_default (max_length req) 256);
                 ("num_beams"%string, 4%Z)] in
  output_ids <-
    try_except_Exception
      (call (generate_call inputs kwargs) (model_generate cap inputs kwargs))
      (fun e =>
         raise (HTTPException 500
                  (lit "Model inference failed: " ++ message e))) ;;
  batch <- call (batch_decode_call output_ids)
                (tokenizer_batch_decode cap output_ids) ;;
  decoded <- index0 batch ;;
  let cleaned := _strip_lang_prefix decoded in
  ret {| translated_text := cleaned; raw_output := decoded |}.

(** The endpoint: the body is validated first, and the handler runs on
    the validated request only. *)
Definition post_translate (str_as_int : IntParser) (cap : Capability)
    (body : RawBody) : Run TranslateResponse :=
  match validate str_as_int body with
  | inl errors => raise (RequestValidationError errors)
  | inr req => translate cap req
  end.

End Pipeline.

Arguments tokenizer_call {Encoding OutputIds}.
Arguments generate_call {Encoding OutputIds}.
Arguments batch_decode_call {Encoding OutputIds}.

(** ** Properties the statements are phrased with *)

(** The cleaned text as the specification words it: a recognised prefix
    and the whitespace that follows it are removed, and a string without
    one is trimmed on both sides. *)
Definition spec_translatedText (rawOutput : str) : str :=
  if has_lang_prefix rawOutput
  then lstrip (skipn 3 rawOutput)
  else strip rawOutput.

(** A string that neither begins nor ends with whitespace. *)
Definition no_outer_space (s : str) : bool :=
  match s with
  | [] => true
  | c :: _ => negb (isspace c)
  end
  &&
  match rev s with
  | [] => true
  | c :: _ => negb (isspace c)
  end.

(** The direction codes the service allows. *)
Definition allowed_direction (v : option str) : Prop :=
  v = Some (lit "en") \/ v = Some (lit "vi").

Definition in_bounds (n : Z) : Prop := (1 <= n <= 512)%Z.

(** A supplied [max_length] that is not an integer of the range: the
    wording of the specification, under which [null], a string, a boolean
    and a float are such values. *)
Definition supplied_not_in_bounds (v : RawMaxLength) : Prop :=
  v <> Absent /\ forall n, v = IntValue n -> ~ in_bounds n.

(** The keyword arguments the handler is expected to pass to
    [model.generate] for a bound [n]. *)
Definition generate_kwargs (n : Z) : list (string * Z) :=
  [("max_length"%string, n); ("num_beams"%string, 4%Z)].

(** ** Capabilities to run the handler on *)

Definition RuntimeError (msg : str) : PyErr :=
  {| is_Exception := true; message := msg |}.

Definition KeyboardInterrupt : PyErr :=
  {| is_Exception := false; message := [] |}.

(** A model that answers every prompt with the same decoded batch. *)
Definition fixed_model (out : list str) : Capability (list str) (list str) :=
  {| tokenizer := fun batch => inr batch;
     model_generate := fun _ _ => inr out;
     tokenizer_batch_decode := fun ids => inr ids |}.

Definition failing_tokenizer (e : PyErr) : Capability (list str) (list str) :=
  {| tokenizer := fun _ => inl e;
     model_generate := fun _ _ => inr [];
     tokenizer_batch_decode := fun ids => inr ids |}.

Definition failing_model (e : PyErr) : Capability (list str) (list str) :=
  {| tokenizer := fun batch => inr batch;
     model_generate := fun _ _ => inl e;
     tokenizer_batch_decode := fun ids => inr ids |}.

Definition hello_en : TranslateRequest :=
  {| text := lit "Hello"; source_lang := en; max_length := Some 256%Z |}.

Definition hello_en_null : TranslateRequest :=
  {| text := lit "Hello"; source_lang := en; max_length := None |}.

Definition hello_response : TranslateResponse :=
  {| translated_text := lit "Hello"; raw_output := lit "en: Hello " |}.

Definition body_fr : RawBody :=
  {| raw_text := Some (lit "Bonjour");
     raw_source_lang := Some (lit "fr");
     raw_max_length := Absent |}.

Definition body_513 : RawBody :=
  {| raw_text := Some (lit "Hello");
     raw_source_lang := Some (lit "en");
     raw_max_length := IntValue 513 |}.

Definition body_hello_null : RawBody :=
  {| raw_text := Some (lit "Hello");
     raw_source_lang := Some (lit "en");
     raw_max_length := Null |}.

(** A [max_length] of a body that validation lets through: none,
    [null], or a value read as an integer of the range. *)
Definition acceptable_max_length (str_as_int : IntParser) (v : RawMaxLength)
  : Prop :=
  v = Absent \/ v = Null \/
  exists n, lax_int str_as_int v = inr n /\ in_bounds n.

(** A parser of plain decimal digits, to run the validation on concrete
    bodies: the strings that every reading of an integer agrees on. *)
Fixpoint digits_value (acc : Z) (s : str) : option Z :=
  match s with
  | [] => Some acc
  | c :: cs =>
      if ((48 <=? c) && (c <=? 57))%N
      then digits_value (10 * acc + Z.of_N (c - 48))%Z cs
      else None
  end.

Definition decimal_digits : IntParser :=
  fun s =>
    match s with
    | [] => None
    | _ => digits_value 0 s
    end.

Definition body_hello_str128 : RawBody :=
  {| raw_text := Some (lit "Hello");
     raw_source_lang := Some (lit "en");
     raw_max_length := StrValue (lit "128") |}.

Definition body_hello_true : RawBody :=
  {| raw_text := Some (lit "Hello");
     raw_source_lang := Some (lit "en");
     raw_max_length := BoolValue true |}.

(** A model whose decoding step raises. *)
Definition failing_decoder (e : PyErr) : Capability (list str) (list str) :=
  {| tokenizer := fun batch => inr batch;
     model_generate := fun _ _ => inr [];
     tokenizer_batch_decode := fun _ => inl e |}.

(** ** Concrete runs *)

Example strip_en_hello :
  _strip_lang_prefix (lit "en: Hello") = lit "Hello".
Proof. reflexivity. Qed.

Example strip_hello :
  _strip_lang_prefix (lit "Hello") = lit "Hello".
Proof. reflexivity. Qed.

Example strip_twice_differs :
  _strip_lang_prefix (lit "en:vi:x") = lit "vi:x" /\
  _strip_lang_prefix (lit "vi:x") = lit "x".
Proof. split; reflexivity. Qed.

Example prompt_vi :
  _build_model_input (lit "Xin chao") vi = lit "vi: Xin chao".
Proof. reflexivity. Qed.

(** ** Facts about stripping *)

Lemma lstrip_split (s : str) :
  exists ws, s = ws ++ lstrip s /\ forallb isspace ws = true.
Proof.
  induction s as [|c cs [ws [E W]]]; simpl.
  - exists []. auto.
  - destruct (isspace c) eqn:Hc.
    + exists (c :: ws). simpl. rewrite Hc, W. split; [now rewrite <- E | reflexivity].
    + exists []. auto.
Qed.

Lemma rstrip_split (s : str) :
  exists ws, s = rstrip s ++ ws /\ forallb isspace ws = true.
Proof.
  induction s as [|c cs [ws [E W]]]; simpl.
  - exists []. auto.
  - destruct (rstrip cs) as [|b r] eqn:R.
    + destruct (isspace c) eqn:Hc.
      * exists (c :: ws). simpl in *. rewrite Hc, W. subst cs. split; reflexivity.
      * exists ws. simpl in *. subst cs. split; [reflexivity | assumption].
    + exists ws. split; [| assumption].
      change (c :: cs = c :: ((b :: r) ++ ws)). now rewrite <- E.
Qed.

Lemma lstrip_head (s : str) c r : lstrip s = c :: r -> isspace c = false.
Proof.
  induction s as [|a cs IH]; simpl; [discriminate|].
  destruct (isspace a) eqn:Ha; [exact IH|].
  intros E. injection E as -> _. exact Ha.
Qed.

Lemma lstrip_fixed c r : isspace c = false -> lstrip (c :: r) = c :: r.
Proof. intros H. simpl. now rewrite H. Qed.

Lemma rstrip_cons_head c cs :
  isspace c = false -> exists r, rstrip (c :: cs) = c :: r.
Proof.
  intros H. simpl. destruct (rstrip cs) as [|b r].
  - rewrite H. now exists [].
  - now exists (b :: r).
Qed.

Lemma rstrip_last (s : str) :
  forall init c, rstrip s = init ++ [c] -> isspace c = false.
Proof.
  induction s as [|a cs IH]; intros init c; simpl.
  - destruct init; discriminate.
  - destruct (rstrip cs) as [|b r] eqn:R.
    + destruct (isspace a) eqn:Ha.
      * destruct init; discriminate.
      * destruct init as [|x [|y init]]; simpl; try discriminate.
        intros E. injection E as <-. exact Ha.
    + destruct init as [|x init]; simpl; [discriminate|].
      intros E. injection E as _ E. apply (IH init c). exact E.
Qed.

Lemma rstrip_idem (s : str) : rstrip (rstrip s) = rstrip s.
Proof.
  induction s as [|a cs IH]; simpl; [reflexivity|].
  destruct (rstrip cs) as [|b r] eqn:R.
  - destruct (isspace a) eqn:Ha; simpl; [reflexivity | now rewrite Ha].
  - change (rstrip (a :: b :: r)) with
      (match rstrip (b :: r) with
       | [] => if isspace a then [] else [a]
       | x :: r' => a :: x :: r'
       end).
    now rewrite IH.
Qed.

Lemma strip_head (s : str) c r : strip s = c :: r -> isspace c = false.
Proof.
  unfold strip. destruct (lstrip s) as [|a l] eqn:L; simpl; [discriminate|].
  pose proof (lstrip_head s L) as Ha.
  destruct (rstrip_cons_head a l Ha) as [r' E]. simpl in E. rewrite E.
  intros E'. injection E' as <- _. exact Ha.
Qed.

Lemma strip_last (s : str) init c : strip s = init ++ [c] -> isspace c = false.
Proof. unfold strip. apply rstrip_last. Qed.

Lemma strip_idem (s : str) : strip (strip s) = strip s.
Proof.
  remember (strip s) as t eqn:E. symmetry in E.
  destruct t as [|c r]; [reflexivity|].
  unfold strip at 1. rewrite (lstrip_fixed c r (strip_head s E)).
  rewrite <- E. unfold strip. apply rstrip_idem.
Qed.

Lemma strip_infix (s : str) :
  exists pre post, s = pre ++ strip s ++ post.
Proof.
  destruct (lstrip_split s) as [pre [E1 _]].
  destruct (rstrip_split (lstrip s)) as [post [E2 _]].
  exists pre, post. unfold strip. now rewrite <- E2.
Qed.

Lemma rstrip_infix_length (s : str) : length (rstrip s) <= length s.
Proof.
  destruct (rstrip_split s) as [ws [E _]].
  rewrite E at 2. rewrite length_app. lia.
Qed.

Lemma lstrip_length (s : str) : length (lstrip s) <= length s.
Proof.
  destruct (lstrip_split s) as [ws [E _]].
  rewrite E at 2. rewrite length_app. lia.
Qed.

Lemma strip_length (s : str) : length (strip s) <= length s.
Proof.
  unfold strip. pose proof (rstrip_infix_length (lstrip s)).
  pose proof (lstrip_length s). lia.
Qed.

(** [rstrip] is [lstrip] read from the right. *)
Lemma lstrip_snoc (s : str) c :
  lstrip (s ++ [c]) =
  match lstrip s with
  | [] => if isspace c then [] else [c]
  | l => l ++ [c]
  end.
Proof.
  induction s as [|a cs IH]; simpl.
  - destruct (isspace c); reflexivity.
  - destruct (isspace a); [exact IH | reflexivity].
Qed.

Lemma rstrip_rev (s : str) : rstrip s = rev (lstrip (rev s)).
Proof.
  induction s as [|a cs IH]; simpl; [reflexivity|].
  rewrite lstrip_snoc, IH.
  destruct (lstrip (rev cs)) as [|x l]; simpl.
  - destruct (isspace a); reflexivity.
  - rewrite rev_app_distr. simpl.
    destruct (rev l ++ [x]) as [|y r] eqn:E; [|reflexivity].
    apply app_eq_nil in E. destruct E as [_ E]. discriminate.
Qed.

(** ** Facts about the two helpers *)

Lemma startswith_app (p s : str) : startswith (p ++ s) p = true.
Proof.
  induction p as [|c p IH]; simpl; [reflexivity|].
  now rewrite N.eqb_refl, IH.
Qed.

Lemma skipn_prefix (p s : str) : skipn (length p) (p ++ s) = s.
Proof. induction p as [|c p IH]; simpl; [reflexivity | exact IH]. Qed.

Lemma strip_lang_prefix_cases (S : str) :
  _strip_lang_prefix S =
  if has_lang_prefix S then strip (skipn 3 S) else strip S.
Proof.
  unfold _strip_lang_prefix, has_lang_prefix, strip_prefix_loop.
  destruct (startswith S (lit "en:")); [reflexivity|].
  destruct (startswith S (lit "vi:")); reflexivity.
Qed.

Lemma strip_lang_prefix_infix (S : str) :
  exists pre post, S = pre ++ _strip_lang_prefix S ++ post.
Proof.
  rewrite strip_lang_prefix_cases. destruct (has_lang_prefix S).
  - destruct (strip_infix (skipn 3 S)) as [pre [post E]].
    exists (firstn 3 S ++ pre), post.
    rewrite <- app_assoc, <- E. symmetry. apply firstn_skipn.
  - apply strip_infix.
Qed.

Lemma strip_lang_prefix_length (S : str) :
  length (_strip_lang_prefix S) <= length S.
Proof.
  destruct (strip_lang_prefix_infix S) as [pre [post E]].
  rewrite E at 2. rewrite !length_app. lia.
Qed.

Lemma strip_lang_prefix_shrinks (S : str) :
  has_lang_prefix S = true -> length (_strip_lang_prefix S) < length S.
Proof.
  intros H. rewrite strip_lang_prefix_cases, H.
  pose proof (strip_length (skipn 3 S)) as L.
  rewrite length_skipn in L.
  assert (3 <= length S); [|lia].
  unfold has_lang_prefix in H.
  destruct S as [|a [|b [|c S]]]; simpl in *;
    rewrite ?andb_false_r in H; try discriminate; lia.
Qed.

Lemma no_outer_space_strip (s : str) : no_outer_space (strip s) = true.
Proof.
  unfold no_outer_space. apply andb_true_iff. split.
  - destruct (strip s) as [|c r] eqn:E; [reflexivity|].
    now rewrite (strip_head s E).
  - destruct (rev (strip s)) as [|c r] eqn:E; [reflexivity|].
    apply (f_equal (@rev char)) in E. rewrite rev_involutive in E.
    simpl in E. now rewrite (strip_last s (rev r) c E).
Qed.

(** ** Facts about validation *)

Lemma str_eqb_eq (a b : str) : str_eqb a b = true <-> a = b.
Proof.
  revert b. induction a as [|x a IH]; intros [|y b]; simpl.
  - split; reflexivity.
  - split; discriminate.
  - split; discriminate.
  - rewrite andb_true_iff, N.eqb_eq, IH.
    split; [intros [-> ->]; reflexivity | intros E; injection E; auto].
Qed.

Lemma validate_source_lang_value (d : LanguageEnum) :
  validate_source_lang (Some (value d)) = inr d.
Proof. destruct d; reflexivity. Qed.

Lemma validate_source_lang_ok (v : option str) (d : LanguageEnum) :
  validate_source_lang v = inr d -> allowed_direction v.
Proof.
  destruct v as [s|]; unfold validate_source_lang; [|discriminate].
  destruct (str_eqb s (value en)) eqn:E1.
  - apply str_eqb_eq in E1. subst s. intros _. now left.
  - destruct (str_eqb s (value vi)) eqn:E2; [|discriminate].
    apply str_eqb_eq in E2. subst s. intros _. now right.
Qed.

Lemma validate_source_lang_enum (s : str) :
  ~ allowed_direction (Some s) ->
  validate_source_lang (Some s) = inl (enum [lit "en"; lit "vi"]).
Proof.
  intros H. unfold validate_source_lang.
  destruct (str_eqb s (value en)) eqn:E1.
  - apply str_eqb_eq in E1. subst s. exfalso. apply H. now left.
  - destruct (str_eqb s (value vi)) eqn:E2; [|reflexivity].
    apply str_eqb_eq in E2. subst s. exfalso. apply H. now right.
Qed.

Lemma check_bounds_in (n : Z) : in_bounds n -> check_bounds n = inr (Some n).
Proof.
  unfold in_bounds, check_bounds. intros [L U].
  destruct (Z.ltb_spec n 1); [lia|].
  destruct (Z.ltb_spec 512 n); [lia|reflexivity].
Qed.

Lemma check_bounds_out (n : Z) :
  ~ in_bounds n ->
  check_bounds n = inl (greater_than_equal 1) \/
  check_bounds n = inl (less_than_equal 512).
Proof.
  unfold in_bounds, check_bounds. intros H.
  destruct (Z.ltb_spec n 1); [now left|].
  destruct (Z.ltb_spec 512 n); [now right|lia].
Qed.

Lemma check_bounds_inv (n : Z) (m : option Z) :
  check_bounds n = inr m -> m = Some n /\ in_bounds n.
Proof.
  unfold in_bounds, check_bounds.
  destruct (Z.ltb_spec n 1); [discriminate|].
  destruct (Z.ltb_spec 512 n); [discriminate|].
  intros E. injection E as <-. split; [reflexivity | lia].
Qed.

(** A value that is there and is not [null] goes through the integer
    validation and then the bounds. *)
Lemma validate_max_length_value (str_as_int : IntParser) (v : RawMaxLength) :
  v <> Absent -> v <> Null ->
  validate_max_length str_as_int v
  = match lax_int str_as_int v with
    | inl k => inl k
    | inr n => check_bounds n
    end.
Proof. destruct v; intros A N; try reflexivity; contradiction. Qed.

Lemma lax_int_present (str_as_int : IntParser) (v : RawMaxLength) (n : Z) :
  lax_int str_as_int v = inr n -> v <> Absent /\ v <> Null.
Proof. destruct v; simpl; intros E; try discriminate E; split; discriminate. Qed.

Lemma validate_max_length_in_bounds (str_as_int : IntParser) (n : Z) :
  in_bounds n -> validate_max_length str_as_int (IntValue n) = inr (Some n).
Proof. intros H. simpl. now apply check_bounds_in. Qed.

Lemma validate_max_length_out (str_as_int : IntParser) (n : Z) :
  ~ in_bounds n ->
  validate_max_length str_as_int (IntValue n) = inl (greater_than_equal 1) \/
  validate_max_length str_as_int (IntValue n) = inl (less_than_equal 512).
Proof. intros H. simpl. now apply check_bounds_out. Qed.

(** What a validated request holds in [max_length]. *)
Lemma validate_max_length_range (str_as_int : IntParser) (v : RawMaxLength)
    (m : option Z) :
  validate_max_length str_as_int v = inr m ->
  match m with
  | None => v = Null
  | Some n =>
      in_bounds n /\
      (v = Absent /\ n = 256%Z \/ lax_int str_as_int v = inr n)
  end.
Proof.
  destruct v as [| |n|b|num den|s|]; simpl.
  - intros E. injection E as <-. unfold in_bounds. split; [lia | now left].
  - intros E. injection E as <-. reflexivity.
  - intros E. apply check_bounds_inv in E. destruct E as [-> B]. auto.
  - intros E. apply check_bounds_inv in E. destruct E as [-> B]. auto.
  - destruct (num mod Z.pos den =? 0)%Z; [|discriminate].
    intros E. apply check_bounds_inv in E. destruct E as [-> B]. auto.
  - destruct (str_as_int s) as [n|]; [|discriminate].
    intros E. apply check_bounds_inv in E. destruct E as [-> B]. auto.
  - discriminate.
Qed.

Lemma validate_accepts (str_as_int : IntParser) (t : str) (d : LanguageEnum)
    (v : RawMaxLength) m :
  validate_max_length str_as_int v = inr m ->
  validate str_as_int {| raw_text := Some t; raw_source_lang := Some (value d);
              raw_max_length := v |}
  = inr {| text := t; source_lang := d; max_length := m |}.
Proof.
  intros H. unfold validate. simpl raw_text. simpl raw_source_lang.
  simpl raw_max_length. rewrite validate_source_lang_value, H. reflexivity.
Qed.

Lemma validate_inv (str_as_int : IntParser) (b : RawBody)
    (req : TranslateRequest) :
  validate str_as_int b = inr req ->
  validate_text (raw_text b) = inr (text req) /\
  validate_source_lang (raw_source_lang b) = inr (source_lang req) /\
  validate_max_length str_as_int (raw_max_length b) = inr (max_length req).
Proof.
  unfold validate.
  destruct (validate_text (raw_text b)) as [k1|t];
    destruct (validate_source_lang (raw_source_lang b)) as [k2|d];
    destruct (validate_max_length str_as_int (raw_max_length b)) as [k3|m];
    try discriminate.
  intros E. injection E as <-. auto.
Qed.

Lemma validate_rejects (str_as_int : IntParser) (b : RawBody) :
  (exists k, validate_text (raw_text b) = inl k) \/
  (exists k, validate_source_lang (raw_source_lang b) = inl k) \/
  (exists k, validate_max_length str_as_int (raw_max_length b) = inl k) ->
  validate str_as_int b
  = inl (field_errors f_text (validate_text (raw_text b))
         ++ field_errors f_source_lang
              (validate_source_lang (raw_source_lang b))
         ++ field_errors f_max_length
              (validate_max_length str_as_int (raw_max_length b))).
Proof.
  unfold validate.
  destruct (validate_text (raw_text b)) as [k1|t];
    destruct (validate_source_lang (raw_source_lang b)) as [k2|d];
    destruct (validate_max_length str_as_int (raw_max_length b)) as [k3|m];
    try reflexivity.
  intros [[k E]|[[k E]|[k E]]]; discriminate E.
Qed.

(** ** Facts about the handler *)

Section PipelineFacts.

Context {Encoding OutputIds : Type}.
Implicit Types (cap : Capability Encoding OutputIds) (req : TranslateRequest).

(** The handler, run by run: which call fails decides how it ends. *)
Lemma translate_eq cap req :
  translate cap req =
  let p := _build_model_input (text req) (source_lang req) in
  let kw := generate_kwargs (or_default (max_length req) 256) in
  match tokenizer cap [p] with
  | inl e => ([tokenizer_call [p]], inl (Unhandled e))
  | inr inputs =>
      match model_generate cap inputs kw with
      | inl e =>
          ([tokenizer_call [p]; generate_call inputs kw],
           inl (if is_Exception e
                then HTTPException 500
                       (lit "Model inference failed: " ++ message e)
                else Unhandled e))
      | inr ids =>
          let t := [tokenizer_call [p]; generate_call inputs kw;
                    batch_decode_call ids] in
          match tokenizer_batch_decode cap ids with
          | inl e => (t, inl (Unhandled e))
          | inr [] => (t, inl (Unhandled IndexError))
          | inr (decoded :: _) =>
              (t, inr {| translated_text := _strip_lang_prefix decoded;
                         raw_output := decoded |})
          end
      end
  end.
Proof.
  unfold translate, generate_kwargs, bind, call, try_except_Exception.
  cbv zeta.
  destruct (tokenizer cap _) as [e|inputs]; [reflexivity|].
  destruct (model_generate cap inputs _) as [e|ids].
  - destruct (is_Exception e); reflexivity.
  - destruct (tokenizer_batch_decode cap ids) as [e|[|decoded rest]];
      reflexivity.
Qed.

Lemma translate_success cap req t resp :
  translate cap req = (t, inr resp) ->
  exists inputs ids decoded rest,
    let p := _build_model_input (text req) (source_lang req) in
    let kw := generate_kwargs (or_default (max_length req) 256) in
    tokenizer cap [p] = inr inputs /\
    model_generate cap inputs kw = inr ids /\
    tokenizer_batch_decode cap ids = inr (decoded :: rest) /\
    t = [tokenizer_call [p]; generate_call inputs kw; batch_decode_call ids] /\
    resp = {| translated_text := _strip_lang_prefix decoded;
              raw_output := decoded |}.
Proof.
  rewrite translate_eq. cbv zeta.
  destruct (tokenizer cap _) as [e|inputs]; [discriminate|].
  destruct (model_generate cap inputs _) as [e|ids] eqn:G; [discriminate|].
  destruct (tokenizer_batch_decode cap ids) as [e|[|decoded rest]] eqn:D;
    try discriminate.
  intros E. injection E as <- <-.
  exists inputs, ids, decoded, rest. auto.
Qed.

End PipelineFacts.

(** ** The cleaned text *)

(** C1, as the specification words it, fails: the code also trims the
    whitespace at the end of the remainder.  For the decoded output
    ["en: Hi "] the handler returns ["Hi"], where removing the prefix and
    the whitespace after it leaves ["Hi "]. *)
Lemma prefix_removal_also_trims_the_end :
  snd (translate (fixed_model [lit "en: Hi "]) hello_en)
  = inr {| translated_text := lit "Hi"; raw_output := lit "en: Hi " |} /\
  spec_translatedText (lit "en: Hi ") = lit "Hi " /\
  _strip_lang_prefix (lit "en: Hi ") <> spec_translatedText (lit "en: Hi ").
Proof. repeat split. discriminate. Qed.

(** C1, amended: for every decoded output S, the cleaned text is S without
    its first three characters and trimmed of whitespace on both sides
    when S begins with ["en:"] or ["vi:"] (case-sensitive), and S trimmed
    on both sides otherwise; the [translated_text] of a response is the
    cleaned text of its [raw_output]. *)
Theorem translated_text_is_trimmed_remainder :
  forall S : str,
    _strip_lang_prefix S
    = (if has_lang_prefix S then strip (skipn 3 S) else strip S) /\
    forall (Encoding OutputIds : Type) (cap : Capability Encoding OutputIds)
           req t resp,
      translate cap req = (t, inr resp) ->
      raw_output resp = S ->
      translated_text resp
      = if has_lang_prefix S then strip (skipn 3 S) else strip S.
Proof.
  intros S. split; [apply strip_lang_prefix_cases|].
  intros Encoding OutputIds cap req t resp H R.
  destruct (translate_success cap req H)
    as (inputs & ids & decoded & rest & _ & _ & _ & _ & ->).
  simpl in *. subst decoded. apply strip_lang_prefix_cases.
Qed.

Lemma translated_text_is_trimmed_remainder_witness :
  snd (translate (fixed_model [lit "en: Hello "]) hello_en)
  = inr hello_response /\
  translated_text hello_response = lit "Hello".
Proof.
  split; [reflexivity|].
  exact (proj2 (translated_text_is_trimmed_remainder (lit "en: Hello "))
           _ _ (fixed_model [lit "en: Hello "]) hello_en _ _
           eq_refl eq_refl).
Defined.

(** C3, as stated, fails: a second recognised prefix behind the first is
    removed by a second pass. *)
Lemma stripping_twice_removes_a_second_prefix :
  _strip_lang_prefix (lit "en: vi: Hello") = lit "vi: Hello" /\
  _strip_lang_prefix (_strip_lang_prefix (lit "en: vi: Hello")) = lit "Hello" /\
  _strip_lang_prefix (_strip_lang_prefix (lit "en: vi: Hello"))
  <> _strip_lang_prefix (lit "en: vi: Hello").
Proof. repeat split. discriminate. Qed.

(** C3, amended: stripping a second time changes nothing exactly when the
    result of the first pass does not itself begin with ["en:"] or
    ["vi:"]; in particular, for every S whose stripped form begins with no
    recognised prefix, stripPrefix(stripPrefix(S)) = stripPrefix(S). *)
Theorem strip_lang_prefix_idempotent_iff :
  forall S : str,
    _strip_lang_prefix (_strip_lang_prefix S) = _strip_lang_prefix S
    <-> has_lang_prefix (_strip_lang_prefix S) = false.
Proof.
  intros S. split.
  - intros E. destruct (has_lang_prefix (_strip_lang_prefix S)) eqn:H;
      [|reflexivity].
    apply strip_lang_prefix_shrinks in H. rewrite E in H. lia.
  - intros H. rewrite (strip_lang_prefix_cases (_strip_lang_prefix S)), H.
    rewrite (strip_lang_prefix_cases S).
    destruct (has_lang_prefix S); apply strip_idem.
Qed.

Lemma strip_lang_prefix_idempotent_iff_witness :
  _strip_lang_prefix (_strip_lang_prefix (lit "en: Hello "))
  = _strip_lang_prefix (lit "en: Hello ").
Proof.
  exact (proj2 (strip_lang_prefix_idempotent_iff (lit "en: Hello ")) eq_refl).
Defined.

(** ** The prompt *)

(** C5: for every text T and direction D the prompt is D's code, then
    [": "], then T; it begins with ["vi: "] for [vi] and with ["en: "] for
    [en], and dropping that prefix gives T back. *)
Theorem build_model_input_round_trip :
  forall (T : str) (D : LanguageEnum),
    _build_model_input T D = value D ++ lit ": " ++ T /\
    startswith (_build_model_input T D) (value D ++ lit ": ") = true /\
    skipn (length (value D ++ lit ": ")) (_build_model_input T D) = T /\
    startswith (_build_model_input T vi) (lit "vi: ") = true /\
    startswith (_build_model_input T en) (lit "en: ") = true /\
    skipn (length (lit "vi: ")) (_build_model_input T vi) = T /\
    skipn (length (lit "en: ")) (_build_model_input T en) = T.
Proof.
  intros T D. unfold _build_model_input.
  split; [reflexivity|]. rewrite app_assoc.
  split; [apply startswith_app|].
  split; [apply skipn_prefix|].
  repeat split; reflexivity.
Qed.

(** ** The cleaned text inside the raw output *)

(** C6: for every decoded output, the cleaned text is a contiguous part of
    it (what is left of the remainder after trimming), and is never
    longer; so are the two fields of every response. *)
Theorem translated_text_within_raw_output :
  forall S : str,
    (exists pre post, S = pre ++ _strip_lang_prefix S ++ post) /\
    length (_strip_lang_prefix S) <= length S /\
    forall (Encoding OutputIds : Type) (cap : Capability Encoding OutputIds)
           req t resp,
      translate cap req = (t, inr resp) ->
      raw_output resp = S ->
      (exists pre post, raw_output resp = pre ++ translated_text resp ++ post) /\
      length (translated_text resp) <= length (raw_output resp).
Proof.
  intros S. split; [apply strip_lang_prefix_infix|].
  split; [apply strip_lang_prefix_length|].
  intros Encoding OutputIds cap req t resp H _.
  destruct (translate_success cap req H)
    as (inputs & ids & decoded & rest & _ & _ & _ & _ & ->).
  simpl. split; [apply strip_lang_prefix_infix | apply strip_lang_prefix_length].
Qed.

Lemma translated_text_within_raw_output_witness :
  snd (translate (fixed_model [lit "en: Hello "]) hello_en)
  = inr hello_response /\
  (exists pre post,
      raw_output hello_response
      = pre ++ translated_text hello_response ++ post) /\
  length (translated_text hello_response)
  <= length (raw_output hello_response).
Proof.
  split; [reflexivity|].
  exact (proj2 (proj2 (translated_text_within_raw_output (lit "en: Hello ")))
           _ _ (fixed_model [lit "en: Hello "]) hello_en _ _
           eq_refl eq_refl).
Defined.

(** ** No whitespace around the cleaned text *)

(** C10: for every input S the cleaned text neither begins nor ends with
    whitespace, with or without a recognised prefix: the remainder after
    a prefix is trimmed at its end too. *)
Theorem translated_text_has_no_outer_space :
  forall S : str,
    no_outer_space (_strip_lang_prefix S) = true /\
    _strip_lang_prefix (lit "en: Hi  ") = lit "Hi" /\
    _strip_lang_prefix (lit "  Hi  ") = lit "Hi".
Proof.
  intros S. split; [|split; reflexivity].
  rewrite strip_lang_prefix_cases.
  destruct (has_lang_prefix S); apply no_outer_space_strip.
Qed.

(** ** Failures of the model *)

(** C2, as stated, fails for tokenization: the tokenizer is called (and
    its tensors moved to the device) before the [try] block, so its
    exception leaves the handler as it was raised and no [HTTPException]
    is built. *)
Lemma tokenizer_failure_is_not_caught :
  translate (failing_tokenizer (RuntimeError (lit "CUDA error"))) hello_en
  = ([tokenizer_call [lit "en: Hello"]],
     inl (Unhandled (RuntimeError (lit "CUDA error")))) /\
  forall status detail,
    snd (translate (failing_tokenizer (RuntimeError (lit "CUDA error"))) hello_en)
    <> inl (HTTPException status detail).
Proof. split; [reflexivity | discriminate]. Qed.

(** C2, amended: for every validated request whose prompt the tokenizer
    accepted, any [Exception] raised by model generation is caught in the
    handler and re-signalled as an [HTTPException] with status 500 whose
    detail is ["Model inference failed: "] followed by the text of the
    cause; nothing is called after the failed generation. *)
Theorem generation_failure_becomes_http_500 :
  forall (Encoding OutputIds : Type) (cap : Capability Encoding OutputIds)
         (req : TranslateRequest) (inputs : Encoding) (e : PyErr),
    let p := _build_model_input (text req) (source_lang req) in
    let kw := generate_kwargs (or_default (max_length req) 256) in
    tokenizer cap [p] = inr inputs ->
    model_generate cap inputs kw = inl e ->
    is_Exception e = true ->
    translate cap req
    = ([tokenizer_call [p]; generate_call inputs kw],
       inl (HTTPException 500 (lit "Model inference failed: " ++ message e))).
Proof.
  intros Encoding OutputIds cap req inputs e p kw T G X.
  rewrite translate_eq. cbv zeta. fold p. rewrite T. fold kw.
  rewrite G, X. reflexivity.
Qed.

Lemma generation_failure_becomes_http_500_witness :
  translate (failing_model (RuntimeError (lit "CUDA out of memory"))) hello_en
  = ([tokenizer_call [lit "en: Hello"];
      generate_call [lit "en: Hello"] (generate_kwargs 256)],
     inl (HTTPException 500
            (lit "Model inference failed: CUDA out of memory"))).
Proof.
  exact (@generation_failure_becomes_http_500 _ _
           (failing_model (RuntimeError (lit "CUDA out of memory")))
           hello_en [lit "en: Hello"] (RuntimeError (lit "CUDA out of memory"))
           eq_refl eq_refl eq_refl).
Defined.

(** ** Validation *)

(** C4, as stated, fails for a [max_length] that is supplied and is not
    an integer of the range, yet passes: [null] (the field is declared
    [int | None], and the handler falls back to 256), and the values the
    integer validation converts, such as the string ["128"] and [true]. *)
Lemma null_max_length_is_accepted :
  supplied_not_in_bounds (raw_max_length body_hello_null) /\
  validate decimal_digits body_hello_null = inr hello_en_null /\
  supplied_not_in_bounds (raw_max_length body_hello_str128) /\
  validate decimal_digits body_hello_str128
  = inr {| text := lit "Hello"; source_lang := en;
           max_length := Some 128%Z |} /\
  supplied_not_in_bounds (raw_max_length body_hello_true) /\
  validate decimal_digits body_hello_true
  = inr {| text := lit "Hello"; source_lang := en; max_length := Some 1%Z |} /\
  ~ (forall b : RawBody,
       supplied_not_in_bounds (raw_max_length b) ->
       exists errors, validate decimal_digits b = inl errors).
Proof.
  assert (S : supplied_not_in_bounds (raw_max_length body_hello_null)).
  { split; [discriminate | intros n E; discriminate E]. }
  split; [exact S|]. split; [reflexivity|].
  split; [split; [discriminate | intros n E; discriminate E]|].
  split; [reflexivity|].
  split; [split; [discriminate | intros n E; discriminate E]|].
  split; [reflexivity|].
  intros H. destruct (H body_hello_null S) as [errors E]. discriminate E.
Qed.

Lemma post_translate_rejects (str_as_int : IntParser)
    {Encoding OutputIds : Type} (cap : Capability Encoding OutputIds)
    (b : RawBody) (k : ErrorKind) :
  validate_max_length str_as_int (raw_max_length b) = inl k ->
  exists errors,
    post_translate str_as_int cap b = ([], inl (RequestValidationError errors)) /\
    In (f_max_length, k) errors.
Proof.
  intros M. eexists. split.
  - unfold post_translate. rewrite validate_rejects; [reflexivity|].
    right. right. now exists k.
  - rewrite M. apply in_or_app. right. apply in_or_app. right. now left.
Qed.

(** C4, amended: every body whose direction code is not exactly ["en"] or
    ["vi"], or whose [max_length] is supplied and is neither [null] nor a
    value that the integer validation of the field reads as an integer of
    [1, 512], is rejected with an error naming the field (for a wrong code,
    with the allowed set) before any call of the tokenizer or the model.
    An integer is read as itself, [true] and [false] as 1 and 0, a float
    without fractional part as its integer value, a string as the parser
    of the validation library reads it; a float with a fractional part, a
    string that does not parse, an array or an object are no integers, and
    an integer outside [1, 512] fails the bounds.  Every value read as an
    integer of [1, 512], so 1 and 512, is accepted; an absent [max_length]
    becomes 256; a [null] one is accepted as [None], for which the handler
    uses 256. *)
Theorem validation_rejects_before_model_work (str_as_int : IntParser) :
  forall (Encoding OutputIds : Type) (cap : Capability Encoding OutputIds)
         (b : RawBody),
    (~ allowed_direction (raw_source_lang b) ->
     exists errors,
       post_translate str_as_int cap b
       = ([], inl (RequestValidationError errors)) /\
       (exists k, In (f_source_lang, k) errors) /\
       (forall s, raw_source_lang b = Some s ->
                  In (f_source_lang, enum [lit "en"; lit "vi"]) errors)) /\
    (forall n, raw_max_length b = IntValue n -> ~ in_bounds n ->
     exists errors,
       post_translate str_as_int cap b
       = ([], inl (RequestValidationError errors)) /\
       (In (f_max_length, greater_than_equal 1) errors \/
        In (f_max_length, less_than_equal 512) errors)) /\
    (forall n, lax_int str_as_int (raw_max_length b) = inr n ->
               ~ in_bounds n ->
     exists errors,
       post_translate str_as_int cap b
       = ([], inl (RequestValidationError errors)) /\
       (In (f_max_length, greater_than_equal 1) errors \/
        In (f_max_length, less_than_equal 512) errors)) /\
    (forall k, raw_max_length b <> Absent -> raw_max_length b <> Null ->
               lax_int str_as_int (raw_max_length b) = inl k ->
     exists errors,
       post_translate str_as_int cap b
       = ([], inl (RequestValidationError errors)) /\
       In (f_max_length, k) errors) /\
    (forall num den, (num mod Zpos den <> 0)%Z ->
       lax_int str_as_int (FloatValue num den) = inl int_from_float) /\
    (forall s, str_as_int s = None ->
       lax_int str_as_int (StrValue s) = inl int_parsing) /\
    lax_int str_as_int OtherValue = inl int_type /\
    (forall t d v n, lax_int str_as_int v = inr n -> in_bounds n ->
       validate str_as_int
         {| raw_text := Some t; raw_source_lang := Some (value d);
            raw_max_length := v |}
       = inr {| text := t; source_lang := d; max_length := Some n |}) /\
    (forall t d n, in_bounds n ->
       validate str_as_int
         {| raw_text := Some t; raw_source_lang := Some (value d);
            raw_max_length := IntValue n |}
       = inr {| text := t; source_lang := d; max_length := Some n |}) /\
    (forall t d,
       validate str_as_int
         {| raw_text := Some t; raw_source_lang := Some (value d);
            raw_max_length := IntValue 1 |}
       = inr {| text := t; source_lang := d; max_length := Some 1%Z |} /\
       validate str_as_int
         {| raw_text := Some t; raw_source_lang := Some (value d);
            raw_max_length := IntValue 512 |}
       = inr {| text := t; source_lang := d; max_length := Some 512%Z |} /\
       validate str_as_int
         {| raw_text := Some t; raw_source_lang := Some (value d);
            raw_max_length := BoolValue true |}
       = inr {| text := t; source_lang := d; max_length := Some 1%Z |} /\
       validate str_as_int
         {| raw_text := Some t; raw_source_lang := Some (value d);
            raw_max_length := FloatValue 256 1 |}
       = inr {| text := t; source_lang := d; max_length := Some 256%Z |} /\
       validate str_as_int
         {| raw_text := Some t; raw_source_lang := Some (value d);
            raw_max_length := Absent |}
       = inr {| text := t; source_lang := d; max_length := Some 256%Z |} /\
       validate str_as_int
         {| raw_text := Some t; raw_source_lang := Some (value d);
            raw_max_length := Null |}
       = inr {| text := t; source_lang := d; max_length := None |} /\
       or_default None 256 = 256%Z).
Proof.
  intros Encoding OutputIds cap b.
  assert (OUT : forall n, lax_int str_as_int (raw_max_length b) = inr n ->
                          ~ in_bounds n ->
            exists errors,
              post_translate str_as_int cap b
              = ([], inl (RequestValidationError errors)) /\
              (In (f_max_length, greater_than_equal 1) errors \/
               In (f_max_length, less_than_equal 512) errors)).
  { intros n L H. destruct (lax_int_present _ _ L) as [A N].
    pose proof (validate_max_length_value str_as_int A N) as V.
    rewrite L in V.
    destruct (check_bounds_out H) as [M|M]; rewrite M in V;
      destruct (post_translate_rejects str_as_int cap b V) as [errors [P I]];
      exists errors; auto. }
  assert (ACC : forall t d v n, lax_int str_as_int v = inr n -> in_bounds n ->
            validate str_as_int
              {| raw_text := Some t; raw_source_lang := Some (value d);
                 raw_max_length := v |}
            = inr {| text := t; source_lang := d; max_length := Some n |}).
  { intros t d v n L B. apply validate_accepts.
    destruct (lax_int_present _ _ L) as [A N].
    rewrite (validate_max_length_value str_as_int A N), L.
    now apply check_bounds_in. }
  repeat apply conj.
  - intros H.
    destruct (validate_source_lang (raw_source_lang b)) as [k|d] eqn:D;
      [|exfalso; apply H; exact (validate_source_lang_ok _ D)].
    eexists. split; [|split].
    + unfold post_translate. rewrite validate_rejects; [reflexivity|].
      right. left. now exists k.
    + exists k. rewrite D. apply in_or_app. right. now left.
    + intros s E. rewrite E in H, D.
      rewrite (validate_source_lang_enum H) in D. injection D as <-.
      rewrite E, (validate_source_lang_enum H).
      apply in_or_app. right. now left.
  - intros n E H. apply (OUT n); [now rewrite E | exact H].
  - exact OUT.
  - intros k A N L. apply post_translate_rejects.
    now rewrite (validate_max_length_value str_as_int A N), L.
  - intros num den H. simpl.
    destruct (Z.eqb_spec (num mod Z.pos den) 0); [contradiction | reflexivity].
  - intros s H. simpl. now rewrite H.
  - reflexivity.
  - exact ACC.
  - intros t d n H. now apply ACC.
  - intros t d. repeat split; now apply validate_accepts.
Qed.

Lemma validation_rejects_before_model_work_witness :
  (exists errors,
      post_translate decimal_digits (fixed_model [lit "vi: Xin chao"]) body_fr
      = ([], inl (RequestValidationError errors)) /\
      In (f_source_lang, enum [lit "en"; lit "vi"]) errors) /\
  (exists errors,
      post_translate decimal_digits (fixed_model [lit "vi: Xin chao"]) body_513
      = ([], inl (RequestValidationError errors)) /\
      (In (f_max_length, greater_than_equal 1) errors \/
       In (f_max_length, less_than_equal 512) errors)) /\
  (exists errors,
      post_translate decimal_digits (fixed_model [lit "vi: Xin chao"])
        {| raw_text := Some (lit "Hello"); raw_source_lang := Some (lit "en");
           raw_max_length := StrValue (lit "abc") |}
      = ([], inl (RequestValidationError errors)) /\
      In (f_max_length, int_parsing) errors) /\
  (exists errors,
      post_translate decimal_digits (fixed_model [lit "vi: Xin chao"])
        {| raw_text := Some (lit "Hello"); raw_source_lang := Some (lit "en");
           raw_max_length := StrValue (lit "513") |}
      = ([], inl (RequestValidationError errors)) /\
      (In (f_max_length, greater_than_equal 1) errors \/
       In (f_max_length, less_than_equal 512) errors)) /\
  lax_int decimal_digits (FloatValue 3 2) = inl int_from_float /\
  validate decimal_digits
    {| raw_text := Some (lit "Hello"); raw_source_lang := Some (value en);
       raw_max_length := StrValue (lit "128") |}
  = inr {| text := lit "Hello"; source_lang := en;
           max_length := Some 128%Z |} /\
  validate decimal_digits
    {| raw_text := Some (lit "Hello"); raw_source_lang := Some (value en);
       raw_max_length := IntValue 512 |}
  = inr {| text := lit "Hello"; source_lang := en;
           max_length := Some 512%Z |}.
Proof.
  pose (cap := fixed_model [lit "vi: Xin chao"]).
  repeat apply conj.
  - assert (N : ~ allowed_direction (raw_source_lang body_fr)).
    { intros [H|H]; discriminate H. }
    destruct (proj1 (validation_rejects_before_model_work
                       decimal_digits cap body_fr) N)
      as (errors & P & _ & E).
    exists errors. split; [exact P | exact (E (lit "fr") eq_refl)].
  - refine (proj1 (proj2 (validation_rejects_before_model_work
                            decimal_digits cap body_513))
              513%Z eq_refl _).
    unfold in_bounds. lia.
  - refine (proj1 (proj2 (proj2 (proj2
              (validation_rejects_before_model_work decimal_digits cap
                 {| raw_text := Some (lit "Hello");
                    raw_source_lang := Some (lit "en");
                    raw_max_length := StrValue (lit "abc") |}))))
              int_parsing _ _ eq_refl); discriminate.
  - refine (proj1 (proj2 (proj2
              (validation_rejects_before_model_work decimal_digits cap
                 {| raw_text := Some (lit "Hello");
                    raw_source_lang := Some (lit "en");
                    raw_max_length := StrValue (lit "513") |})))
              513%Z eq_refl _).
    unfold in_bounds. lia.
  - refine (proj1 (proj2 (proj2 (proj2 (proj2
              (validation_rejects_before_model_work decimal_digits cap
                 body_513)))))
              3%Z 2%positive _).
    discriminate.
  - refine (proj1 (proj2 (proj2 (proj2 (proj2 (proj2 (proj2 (proj2
              (validation_rejects_before_model_work decimal_digits cap
                 body_513))))))))
              (lit "Hello") en (StrValue (lit "128")) 128%Z eq_refl _).
    unfold in_bounds. lia.
  - refine (proj1 (proj2 (proj2 (proj2 (proj2 (proj2 (proj2 (proj2 (proj2
              (validation_rejects_before_model_work decimal_digits cap
                 body_513)))))))))
              (lit "Hello") en 512%Z _).
    unfold in_bounds. lia.
Defined.

(** ** The model invocation *)

Lemma or_default_validated (str_as_int : IntParser) (v : RawMaxLength)
    (m : option Z) :
  validate_max_length str_as_int v = inr m ->
  or_default m 256 = match m with Some n => n | None => 256%Z end /\
  in_bounds (or_default m 256).
Proof.
  intros H. apply validate_max_length_range in H.
  destruct m as [n|]; simpl.
  - destruct H as [B _]. unfold in_bounds in B.
    destruct (Z.eqb_spec n 0); [lia|]. split; [reflexivity | exact B].
  - unfold in_bounds. split; [reflexivity | lia].
Qed.

(** C7, as stated, fails for a validated request whose [max_length] is
    [None] (a body with [null]): generation is bounded by 256, which is
    not the request's [max_length]. *)
Lemma null_max_length_generates_with_256 :
  validate decimal_digits body_hello_null = inr hello_en_null /\
  max_length hello_en_null = None /\
  fst (post_translate decimal_digits (fixed_model [lit "vi: Xin chao"]) body_hello_null)
  = [tokenizer_call [lit "en: Hello"];
     generate_call [lit "en: Hello"] (generate_kwargs 256);
     batch_decode_call [lit "vi: Xin chao"]] /\
  max_length hello_en_null <> Some 256%Z.
Proof. repeat split. discriminate. Qed.

(** C7, amended: for every validated request the tokenizer is called on a
    batch holding the one prompt, and generation is called with exactly
    the keywords [max_length] and [num_beams = 4], where [max_length] is
    the request's [max_length] when that is an integer and 256 when it is
    [None]; the bound lies in [1, 512]; on success the response is built
    from the first decoded sequence. *)
Theorem generate_called_with_bound_and_four_beams (str_as_int : IntParser) :
  forall (Encoding OutputIds : Type) (cap : Capability Encoding OutputIds)
         (body : RawBody) (req : TranslateRequest) (inputs : Encoding),
    let p := _build_model_input (text req) (source_lang req) in
    let n := match max_length req with Some n => n | None => 256%Z end in
    validate str_as_int body = inr req ->
    tokenizer cap [p] = inr inputs ->
    in_bounds n /\
    (exists rest,
        fst (post_translate str_as_int cap body)
        = tokenizer_call [p]
            :: generate_call inputs
                 [("max_length"%string, n); ("num_beams"%string, 4%Z)]
            :: rest) /\
    (forall t resp,
        post_translate str_as_int cap body = (t, inr resp) ->
        exists ids decoded others,
          model_generate cap inputs (generate_kwargs n) = inr ids /\
          tokenizer_batch_decode cap ids = inr (decoded :: others) /\
          t = [tokenizer_call [p]; generate_call inputs (generate_kwargs n);
               batch_decode_call ids] /\
          raw_output resp = decoded /\
          translated_text resp = _strip_lang_prefix decoded).
Proof.
  intros Encoding OutputIds cap body req inputs p n V T.
  destruct (validate_inv str_as_int body V) as (_ & _ & M).
  destruct (or_default_validated str_as_int _ M) as [D B]. fold n in D.
  rewrite D in B. split; [exact B|].
  unfold post_translate. rewrite V. split.
  - rewrite translate_eq. cbv zeta. fold p. rewrite T, D.
    unfold generate_kwargs.
    destruct (model_generate cap inputs _) as [e|ids]; [eexists; reflexivity|].
    destruct (tokenizer_batch_decode cap ids) as [e|[|decoded others]];
      eexists; reflexivity.
  - intros t resp H.
    destruct (translate_success cap req H)
      as (inputs' & ids & decoded & others & T' & G & BD & -> & ->).
    fold p in T'. rewrite T in T'. injection T' as <-.
    rewrite D in G. exists ids, decoded, others.
    rewrite D. repeat split; assumption.
Qed.

Lemma generate_called_with_bound_and_four_beams_witness :
  in_bounds 128 /\
  exists rest,
    fst (post_translate decimal_digits (fixed_model [lit "vi: Xin chao"])
           {| raw_text := Some (lit "Hello");
              raw_source_lang := Some (lit "en");
              raw_max_length := IntValue 128 |})
    = tokenizer_call [lit "en: Hello"]
        :: generate_call [lit "en: Hello"]
             [("max_length"%string, 128%Z); ("num_beams"%string, 4%Z)]
        :: rest.
Proof.
  pose proof (@generate_called_with_bound_and_four_beams decimal_digits _ _
                (fixed_model [lit "vi: Xin chao"])
                {| raw_text := Some (lit "Hello");
                   raw_source_lang := Some (lit "en");
                   raw_max_length := IntValue 128 |}
                {| text := lit "Hello"; source_lang := en;
                   max_length := Some 128%Z |}
                [lit "en: Hello"] eq_refl eq_refl) as [B [R _]].
  split; [exact B | exact R].
Defined.

(** ** Responses *)

(** C8: for every request, the handler and the endpoint either return a
    response holding both fields, [raw_output] being the decoded output
    and [translated_text] its cleaned form, or end with an error and no
    response at all. *)
Theorem translate_all_or_nothing (str_as_int : IntParser) :
  forall (Encoding OutputIds : Type) (cap : Capability Encoding OutputIds),
    (forall req : TranslateRequest,
        (exists t decoded,
            translate cap req
            = (t, inr {| translated_text := _strip_lang_prefix decoded;
                         raw_output := decoded |})) \/
        (exists t f, translate cap req = (t, inl f))) /\
    (forall body : RawBody,
        (exists t decoded,
            post_translate str_as_int cap body
            = (t, inr {| translated_text := _strip_lang_prefix decoded;
                         raw_output := decoded |})) \/
        (exists t f, post_translate str_as_int cap body = (t, inl f))).
Proof.
  intros Encoding OutputIds cap.
  assert (R : forall req : TranslateRequest,
             (exists t decoded,
                 translate cap req
                 = (t, inr {| translated_text := _strip_lang_prefix decoded;
                              raw_output := decoded |})) \/
             (exists t f, translate cap req = (t, inl f))).
  { intros req. destruct (translate cap req) as [t [f|resp]] eqn:H.
    - right. now exists t, f.
    - left. destruct (translate_success cap req H)
        as (inputs & ids & decoded & others & _ & _ & _ & _ & ->).
      now exists t, decoded. }
  split; [exact R|].
  intros body. unfold post_translate.
  destruct (validate str_as_int body) as [errors|req]; [|apply R].
  right. now exists [], (RequestValidationError errors).
Qed.

(** ** Empty text *)

(** C9: a request whose text is empty or only whitespace (with a valid
    direction and [max_length]) passes validation unchanged, and the
    first call of the endpoint hands the tokenizer the prompt made of the
    direction code, a colon, a space and that text. *)
Theorem blank_text_is_forwarded (str_as_int : IntParser) :
  forall (Encoding OutputIds : Type) (cap : Capability Encoding OutputIds)
         (txt : str) (d : LanguageEnum) (v : RawMaxLength) (m : option Z),
    let body := {| raw_text := Some txt; raw_source_lang := Some (value d);
                   raw_max_length := v |} in
    forallb isspace txt = true ->
    validate_max_length str_as_int v = inr m ->
    validate str_as_int body = inr {| text := txt; source_lang := d; max_length := m |} /\
    (exists rest,
        fst (post_translate str_as_int cap body)
        = tokenizer_call [value d ++ lit ": " ++ txt] :: rest) /\
    (forall inputs,
        tokenizer cap [value d ++ lit ": " ++ txt] = inr inputs ->
        exists kwargs rest,
          fst (post_translate str_as_int cap body)
          = tokenizer_call [value d ++ lit ": " ++ txt]
              :: generate_call inputs kwargs :: rest).
Proof.
  intros Encoding OutputIds cap txt d v m body _ M.
  pose proof (validate_accepts str_as_int txt d v M) as V. fold body in V.
  split; [exact V|].
  unfold post_translate. rewrite V, translate_eq. cbv zeta.
  unfold _build_model_input. simpl text. simpl source_lang. split.
  - destruct (tokenizer cap _) as [e|inputs]; [eexists; reflexivity|].
    destruct (model_generate cap inputs _) as [e|ids]; [eexists; reflexivity|].
    destruct (tokenizer_batch_decode cap ids) as [e|[|decoded others]];
      eexists; reflexivity.
  - intros inputs T.
    destruct (tokenizer cap _) as [e|inputs']; [discriminate T|].
    injection T as ->.
    destruct (model_generate cap inputs _) as [e|ids];
      [eexists; eexists; reflexivity|].
    destruct (tokenizer_batch_decode cap ids) as [e|[|decoded others]];
      eexists; eexists; reflexivity.
Qed.

Lemma blank_text_is_forwarded_witness :
  validate decimal_digits {| raw_text := Some (lit "  "); raw_source_lang := Some (lit "vi");
              raw_max_length := Absent |}
  = inr {| text := lit "  "; source_lang := vi; max_length := Some 256%Z |} /\
  exists rest,
    fst (post_translate decimal_digits (fixed_model [lit "en:"])
           {| raw_text := Some (lit "  "); raw_source_lang := Some (lit "vi");
              raw_max_length := Absent |})
    = tokenizer_call [lit "vi:   "] :: rest.
Proof.
  pose proof (@blank_text_is_forwarded decimal_digits _ _ (fixed_model [lit "en:"])
                (lit "  ") vi Absent (Some 256%Z) eq_refl eq_refl)
    as [V [R _]].
  split; [exact V | exact R].
Defined.

(** ** More on stripping *)

Lemma lstrip_spaces_app (ws s : str) :
  forallb isspace ws = true -> lstrip (ws ++ s) = lstrip s.
Proof.
  induction ws as [|c ws IH]; simpl; [reflexivity|].
  destruct (isspace c); [exact IH | discriminate].
Qed.

Lemma rstrip_spaces (ws : str) : forallb isspace ws = true -> rstrip ws = [].
Proof.
  induction ws as [|c ws IH]; simpl; [reflexivity|].
  destruct (isspace c); [|discriminate].
  intros H. now rewrite (IH H).
Qed.

Lemma rstrip_app_spaces (s ws : str) :
  forallb isspace ws = true -> rstrip (s ++ ws) = rstrip s.
Proof.
  intros H. induction s as [|a s IH]; simpl.
  - now apply rstrip_spaces.
  - now rewrite IH.
Qed.

Lemma rstrip_fixed (s : str) :
  match rev s with
  | [] => true
  | c :: _ => negb (isspace c)
  end = true ->
  rstrip s = s.
Proof.
  rewrite rstrip_rev. destruct (rev s) as [|c r] eqn:E; intros H.
  - apply (f_equal (@rev char)) in E. rewrite rev_involutive in E.
    now rewrite E.
  - apply negb_true_iff in H. rewrite (lstrip_fixed c r H), <- E.
    apply rev_involutive.
Qed.

Lemma strip_padded (ws1 ws2 s : str) :
  forallb isspace ws1 = true ->
  forallb isspace ws2 = true ->
  no_outer_space s = true ->
  strip (ws1 ++ s ++ ws2) = s.
Proof.
  intros H1 H2 N. unfold strip. rewrite (@lstrip_spaces_app ws1 _ H1).
  unfold no_outer_space in N. apply andb_true_iff in N. destruct N as [Hh Hl].
  destruct s as [|c r].
  - simpl. rewrite <- (app_nil_r ws2), (@lstrip_spaces_app ws2 [] H2). reflexivity.
  - apply negb_true_iff in Hh.
    change ((c :: r) ++ ws2) with (c :: (r ++ ws2)).
    rewrite (lstrip_fixed c (r ++ ws2) Hh).
    change (c :: (r ++ ws2)) with ((c :: r) ++ ws2).
    rewrite (@rstrip_app_spaces (c :: r) ws2 H2). now apply rstrip_fixed.
Qed.

Lemma has_lang_prefix_app (p s : str) :
  p = lit "en:" \/ p = lit "vi:" -> has_lang_prefix (p ++ s) = true.
Proof.
  unfold has_lang_prefix. intros [-> | ->].
  - now rewrite startswith_app.
  - rewrite startswith_app. apply orb_true_r.
Qed.

(** ** The two helpers together *)

(** X1: cleaning a prompt gives back the text it was built from, trimmed:
    a model that echoes its prompt yields the trimmed input text, for
    either direction. *)
Theorem strip_of_built_prompt :
  forall (T : str) (D : LanguageEnum),
    _strip_lang_prefix (_build_model_input T D) = strip T.
Proof.
  intros T D. rewrite strip_lang_prefix_cases.
  destruct D; reflexivity.
Qed.

(** X2: the prompt determines the request: two prompts are equal only
    when both the text and the direction are. *)
Theorem build_model_input_injective :
  forall (T1 T2 : str) (D1 D2 : LanguageEnum),
    _build_model_input T1 D1 = _build_model_input T2 D2 ->
    T1 = T2 /\ D1 = D2.
Proof.
  intros T1 T2 D1 D2. unfold _build_model_input.
  destruct D1, D2; simpl; intros E; inversion E; auto.
Qed.

Lemma build_model_input_injective_witness :
  lit "Xin chao" = lit "Xin chao" /\ vi = vi.
Proof.
  exact (@build_model_input_injective (lit "Xin chao") (lit "Xin chao") vi vi
           eq_refl).
Defined.

Lemma strip_lang_prefix_first_char (c : char) (S : str) :
  c <> 101%N -> c <> 118%N ->
  _strip_lang_prefix (c :: S) = strip (c :: S).
Proof.
  intros He Hv. rewrite strip_lang_prefix_cases.
  unfold has_lang_prefix. simpl startswith.
  apply N.eqb_neq in He, Hv. rewrite He, Hv. reflexivity.
Qed.

(** X3: an output whose first character is neither [e] nor [v] is only
    trimmed; so a prefix behind leading whitespace, or one in upper case,
    stays in the cleaned text. *)
Theorem other_first_char_is_only_trimmed :
  forall (c : char) (S : str),
    c <> 101%N -> c <> 118%N ->
    _strip_lang_prefix (c :: S) = strip (c :: S).
Proof. intros c S He Hv. now apply strip_lang_prefix_first_char. Qed.

Lemma other_first_char_is_only_trimmed_witness :
  _strip_lang_prefix (lit " en: Hello") = lit "en: Hello".
Proof.
  refine (@other_first_char_is_only_trimmed 32%N (lit "en: Hello") _ _);
    discriminate.
Defined.

(** X4: an output made of whitespace only, with or without a recognised
    prefix before it, is cleaned to the empty string. *)
Theorem blank_output_is_cleaned_to_empty :
  forall ws : str,
    forallb isspace ws = true ->
    _strip_lang_prefix ws = [] /\
    _strip_lang_prefix (lit "en:" ++ ws) = [] /\
    _strip_lang_prefix (lit "vi:" ++ ws) = [].
Proof.
  intros ws H.
  assert (B : strip ws = []).
  { unfold strip. rewrite <- (app_nil_r ws) at 1.
    now rewrite (@lstrip_spaces_app ws [] H). }
  repeat split.
  - destruct ws as [|c ws]; [reflexivity|].
    rewrite strip_lang_prefix_first_char; [exact B | |];
      intros ->; simpl in H; discriminate H.
  - rewrite strip_lang_prefix_cases, has_lang_prefix_app by now left.
    exact B.
  - rewrite strip_lang_prefix_cases, has_lang_prefix_app by now right.
    exact B.
Qed.

Lemma blank_output_is_cleaned_to_empty_witness :
  _strip_lang_prefix (lit "  ") = [] /\
  _strip_lang_prefix (lit "en:" ++ lit "  ") = [] /\
  _strip_lang_prefix (lit "vi:" ++ lit "  ") = [].
Proof.
  exact (@blank_output_is_cleaned_to_empty (lit "  ") eq_refl).
Defined.

(** X5: a recognised prefix, any whitespace, a text that has no whitespace
    at either end, and any whitespace again: the cleaned text is exactly
    that text, whatever is inside it. *)
Theorem prefixed_padded_text_is_recovered :
  forall (p ws1 T ws2 : str),
    p = lit "en:" \/ p = lit "vi:" ->
    forallb isspace ws1 = true ->
    forallb isspace ws2 = true ->
    no_outer_space T = true ->
    _strip_lang_prefix (p ++ ws1 ++ T ++ ws2) = T.
Proof.
  intros p ws1 T ws2 P H1 H2 N.
  rewrite strip_lang_prefix_cases, (has_lang_prefix_app _ P).
  assert (L : length p = 3) by (destruct P as [-> | ->]; reflexivity).
  rewrite <- L, skipn_prefix. now apply strip_padded.
Qed.

Lemma prefixed_padded_text_is_recovered_witness :
  _strip_lang_prefix (lit "vi:" ++ lit "  " ++ lit "Xin chao" ++ lit " ")
  = lit "Xin chao".
Proof.
  exact (@prefixed_padded_text_is_recovered
           (lit "vi:") (lit "  ") (lit "Xin chao") (lit " ")
           (or_intror eq_refl) eq_refl eq_refl eq_refl).
Defined.

(** ** How the handler ends *)

(** X6: the handler returns a response exactly when the tokenizer, the
    model and the decoder all succeed and the decoded batch is not empty;
    the response is then built from the first decoded string alone. *)
Theorem translate_succeeds_iff :
  forall (Encoding OutputIds : Type) (cap : Capability Encoding OutputIds)
         (req : TranslateRequest) (resp : TranslateResponse),
    let p := _build_model_input (text req) (source_lang req) in
    let kw := generate_kwargs (or_default (max_length req) 256) in
    (exists t, translate cap req = (t, inr resp)) <->
    (exists inputs ids decoded others,
        tokenizer cap [p] = inr inputs /\
        model_generate cap inputs kw = inr ids /\
        tokenizer_batch_decode cap ids = inr (decoded :: others) /\
        resp = {| translated_text := _strip_lang_prefix decoded;
                  raw_output := decoded |}).
Proof.
  intros Encoding OutputIds cap req resp p kw. split.
  - intros [t H].
    destruct (translate_success cap req H)
      as (inputs & ids & decoded & others & T & G & D & _ & R).
    exists inputs, ids, decoded, others. auto.
  - intros (inputs & ids & decoded & others & T & G & D & ->).
    rewrite translate_eq. cbv zeta. fold p kw. rewrite T, G, D.
    eexists. reflexivity.
Qed.

(** X7: a failure of the decoding step is not turned into an HTTP 500: an
    exception of [batch_decode] leaves the handler as raised, and an empty
    decoded batch ends it with the [IndexError] of the indexing. *)
Theorem decode_failure_is_not_caught :
  forall (Encoding OutputIds : Type) (cap : Capability Encoding OutputIds)
         (req : TranslateRequest) (inputs : Encoding) (ids : OutputIds),
    let p := _build_model_input (text req) (source_lang req) in
    let kw := generate_kwargs (or_default (max_length req) 256) in
    tokenizer cap [p] = inr inputs ->
    model_generate cap inputs kw = inr ids ->
    (forall e, tokenizer_batch_decode cap ids = inl e ->
               snd (translate cap req) = inl (Unhandled e)) /\
    (tokenizer_batch_decode cap ids = inr [] ->
     snd (translate cap req) = inl (Unhandled IndexError)).
Proof.
  intros Encoding OutputIds cap req inputs ids p kw T G.
  rewrite translate_eq. cbv zeta. fold p kw. rewrite T, G.
  split; [intros e D | intros D]; rewrite D; reflexivity.
Qed.

Lemma decode_failure_is_not_caught_witness :
  snd (translate (failing_decoder (RuntimeError (lit "bad token id"))) hello_en)
  = inl (Unhandled (RuntimeError (lit "bad token id"))) /\
  snd (translate (fixed_model []) hello_en) = inl (Unhandled IndexError).
Proof.
  split.
  - exact (proj1 (@decode_failure_is_not_caught _ _
                    (failing_decoder (RuntimeError (lit "bad token id")))
                    hello_en [lit "en: Hello"] [] eq_refl eq_refl)
             (RuntimeError (lit "bad token id")) eq_refl).
  - exact (proj2 (@decode_failure_is_not_caught _ _
                    (fixed_model []) hello_en [lit "en: Hello"] []
                    eq_refl eq_refl)
             eq_refl).
Defined.

(** X8: an exception of the model that is not an instance of [Exception]
    (an interrupt, an exit) is not converted: it leaves the handler as
    raised, after the tokenizer and the model were called. *)
Theorem base_exception_passes_through :
  forall (Encoding OutputIds : Type) (cap : Capability Encoding OutputIds)
         (req : TranslateRequest) (inputs : Encoding) (e : PyErr),
    let p := _build_model_input (text req) (source_lang req) in
    let kw := generate_kwargs (or_default (max_length req) 256) in
    tokenizer cap [p] = inr inputs ->
    model_generate cap inputs kw = inl e ->
    is_Exception e = false ->
    translate cap req
    = ([tokenizer_call [p]; generate_call inputs kw], inl (Unhandled e)).
Proof.
  intros Encoding OutputIds cap req inputs e p kw T G X.
  rewrite translate_eq. cbv zeta. fold p kw. rewrite T, G, X. reflexivity.
Qed.

Lemma base_exception_passes_through_witness :
  translate (failing_model KeyboardInterrupt) hello_en
  = ([tokenizer_call [lit "en: Hello"];
      generate_call [lit "en: Hello"] (generate_kwargs 256)],
     inl (Unhandled KeyboardInterrupt)).
Proof.
  exact (@base_exception_passes_through _ _
           (failing_model KeyboardInterrupt) hello_en [lit "en: Hello"]
           KeyboardInterrupt eq_refl eq_refl eq_refl).
Defined.

(** X9: the only [HTTPException] the handler raises is the one for a
    failed generation: its status is 500, its detail is
    ["Model inference failed: "] and the text of an [Exception] the model
    raised, and the decoder was not called. *)
Theorem http_exception_only_from_generation :
  forall (Encoding OutputIds : Type) (cap : Capability Encoding OutputIds)
         (req : TranslateRequest) t (status : Z) (detail : str),
    let p := _build_model_input (text req) (source_lang req) in
    let kw := generate_kwargs (or_default (max_length req) 256) in
    translate cap req = (t, inl (HTTPException status detail)) ->
    status = 500%Z /\
    exists inputs e,
      tokenizer cap [p] = inr inputs /\
      model_generate cap inputs kw = inl e /\
      is_Exception e = true /\
      detail = lit "Model inference failed: " ++ message e /\
      t = [tokenizer_call [p]; generate_call inputs kw].
Proof.
  intros Encoding OutputIds cap req t status detail p kw.
  rewrite translate_eq. cbv zeta. fold p kw.
  destruct (tokenizer cap [p]) as [e|inputs] eqn:T; [discriminate|].
  destruct (model_generate cap inputs kw) as [e|ids] eqn:G.
  - destruct (is_Exception e) eqn:X; [|discriminate].
    intros E. injection E as <- <- <-.
    split; [reflexivity|]. exists inputs, e. auto.
  - destruct (tokenizer_batch_decode cap ids) as [e|[|decoded others]];
      discriminate.
Qed.

Lemma http_exception_only_from_generation_witness :
  exists e,
    model_generate (failing_model (RuntimeError (lit "CUDA out of memory")))
      [lit "en: Hello"] (generate_kwargs 256) = inl e /\
    is_Exception e = true /\
    lit "Model inference failed: CUDA out of memory"
    = lit "Model inference failed: " ++ message e.
Proof.
  destruct (@http_exception_only_from_generation _ _
              (failing_model (RuntimeError (lit "CUDA out of memory")))
              hello_en _ 500%Z
              (lit "Model inference failed: CUDA out of memory") eq_refl)
    as (_ & inputs & e & T & G & X & D & _).
  injection T as <-. exists e. auto.
Defined.

Lemma translate_trace {Encoding OutputIds : Type}
    (cap : Capability Encoding OutputIds) (req : TranslateRequest) :
  let p := _build_model_input (text req) (source_lang req) in
  let kw := generate_kwargs (or_default (max_length req) 256) in
  let t := fst (translate cap req) in
  (exists e, tokenizer cap [p] = inl e /\ t = [tokenizer_call [p]]) \/
  (exists inputs e,
      tokenizer cap [p] = inr inputs /\
      model_generate cap inputs kw = inl e /\
      t = [tokenizer_call [p]; generate_call inputs kw]) \/
  (exists inputs ids,
      tokenizer cap [p] = inr inputs /\
      model_generate cap inputs kw = inr ids /\
      t = [tokenizer_call [p]; generate_call inputs kw;
           batch_decode_call ids]).
Proof.
  intros p kw t. subst t.
  rewrite translate_eq. cbv zeta. fold p kw.
  destruct (tokenizer cap [p]) as [e|inputs] eqn:T.
  - left. now exists e.
  - right. destruct (model_generate cap inputs kw) as [e|ids] eqn:G.
    + left. now exists inputs, e.
    + right. exists inputs, ids.
      destruct (tokenizer_batch_decode cap ids) as [e|[|decoded others]]; auto.
Qed.

(** X10: the handler calls the tokenizer first and once, the model only
    on what the tokenizer returned, and the decoder only on what the model
    returned: its calls are one, two or three, in this order. *)
Theorem translate_calls_in_order :
  forall (Encoding OutputIds : Type) (cap : Capability Encoding OutputIds)
         (req : TranslateRequest),
    let p := _build_model_input (text req) (source_lang req) in
    let kw := generate_kwargs (or_default (max_length req) 256) in
    let t := fst (translate cap req) in
    (exists e, tokenizer cap [p] = inl e /\ t = [tokenizer_call [p]]) \/
    (exists inputs e,
        tokenizer cap [p] = inr inputs /\
        model_generate cap inputs kw = inl e /\
        t = [tokenizer_call [p]; generate_call inputs kw]) \/
    (exists inputs ids,
        tokenizer cap [p] = inr inputs /\
        model_generate cap inputs kw = inr ids /\
        t = [tokenizer_call [p]; generate_call inputs kw;
             batch_decode_call ids]).
Proof. intros Encoding OutputIds cap req. exact (translate_trace cap req). Qed.

(** ** Which bodies reach the model *)

Lemma validate_max_length_accepts_iff (str_as_int : IntParser)
    (v : RawMaxLength) :
  (exists m, validate_max_length str_as_int v = inr m)
  <-> acceptable_max_length str_as_int v.
Proof.
  unfold acceptable_max_length. split.
  - intros [m H]. pose proof (validate_max_length_range str_as_int v H) as R.
    destruct m as [n|].
    + destruct R as [B [[-> _] | L]]; [now left|].
      right. right. now exists n.
    + right. now left.
  - intros [-> | [-> | [n [L B]]]].
    + now exists (Some 256%Z).
    + now exists None.
    + exists (Some n). destruct (lax_int_present _ _ L) as [A N].
      rewrite (validate_max_length_value str_as_int A N), L.
      now apply check_bounds_in.
Qed.

Lemma validate_source_lang_accepts_iff (v : option str) :
  (exists d, validate_source_lang v = inr d) <-> allowed_direction v.
Proof.
  split.
  - intros [d H]. exact (validate_source_lang_ok v H).
  - intros [-> | ->]; [now exists en | now exists vi].
Qed.

(** X11: a body is accepted exactly when it has a text, its direction
    code is exactly ["en"] or ["vi"], and its [max_length] is absent,
    [null], or a value that the integer validation of the field reads as
    an integer of [1, 512] (an integer, [true], a float without fractional
    part, a string the parser reads); the text itself is never a reason
    to reject. *)
Theorem validate_accepts_iff (str_as_int : IntParser) :
  forall b : RawBody,
    (exists req, validate str_as_int b = inr req) <->
    (exists t, raw_text b = Some t) /\
    allowed_direction (raw_source_lang b) /\
    acceptable_max_length str_as_int (raw_max_length b).
Proof.
  intros b. split.
  - intros [req H]. destruct (validate_inv str_as_int b H) as (T & D & M).
    repeat split.
    + destruct (raw_text b) as [t|]; [now exists t | discriminate T].
    + exact (validate_source_lang_ok _ D).
    + apply validate_max_length_accepts_iff. now exists (max_length req).
  - intros ([t T] & D & M).
    apply validate_source_lang_accepts_iff in D. destruct D as [d D].
    apply validate_max_length_accepts_iff in M. destruct M as [m M].
    exists {| text := t; source_lang := d; max_length := m |}.
    unfold validate. rewrite T, D, M. reflexivity.
Qed.

(** X12: the endpoint touches the tokenizer or the model exactly for the
    bodies validation accepts: a rejected body causes no call at all, and
    an accepted one at least the call of the tokenizer. *)
Theorem model_is_called_iff_body_is_valid (str_as_int : IntParser) :
  forall (Encoding OutputIds : Type) (cap : Capability Encoding OutputIds)
         (b : RawBody),
    fst (post_translate str_as_int cap b) = []
    <-> exists errors, validate str_as_int b = inl errors.
Proof.
  intros Encoding OutputIds cap b. unfold post_translate.
  destruct (validate str_as_int b) as [errors|req]; split.
  - intros _. now exists errors.
  - reflexivity.
  - intros H. exfalso.
    destruct (translate_trace cap req)
      as [(e & _ & E) | [(i & e & _ & _ & E) | (i & o & _ & _ & E)]];
      rewrite E in H; discriminate H.
  - intros [errors E]. discriminate E.
Qed.

(** X13: for every accepted body the prompt handed to the tokenizer is the
    body's direction code, a colon, a space and the body's text, character
    for character: validation neither trims nor rewrites them; and the
    bound given to the model is the body's integer when one was sent. *)
Theorem accepted_body_is_forwarded_verbatim (str_as_int : IntParser) :
  forall (Encoding OutputIds : Type) (cap : Capability Encoding OutputIds)
         (b : RawBody) (req : TranslateRequest),
    validate str_as_int b = inr req ->
    raw_text b = Some (text req) /\
    raw_source_lang b = Some (value (source_lang req)) /\
    (forall n, raw_max_length b = IntValue n -> max_length req = Some n) /\
    exists rest,
      fst (post_translate str_as_int cap b)
      = tokenizer_call [value (source_lang req) ++ lit ": " ++ text req]
          :: rest.
Proof.
  intros Encoding OutputIds cap b req V.
  destruct (validate_inv str_as_int b V) as (T & D & M). repeat split.
  - destruct (raw_text b) as [t|]; [|discriminate T].
    simpl in T. injection T as ->. reflexivity.
  - destruct (validate_source_lang_ok _ D) as [E | E]; rewrite E in D |- *;
      injection D as <-; reflexivity.
  - intros n E. rewrite E in M. simpl in M.
    apply check_bounds_inv in M. now destruct M as [-> _].
  - unfold post_translate. rewrite V.
    destruct (translate_trace cap req)
      as [(e & _ & E) | [(i & e & _ & _ & E) | (i & o & _ & _ & E)]];
      rewrite E; eexists; reflexivity.
Qed.

Lemma accepted_body_is_forwarded_verbatim_witness :
  exists rest,
    fst (post_translate decimal_digits (fixed_model [lit "vi: Xin chao"]) body_hello_null)
    = tokenizer_call [lit "en: Hello"] :: rest.
Proof.
  destruct (@accepted_body_is_forwarded_verbatim decimal_digits _ _
              (fixed_model [lit "vi: Xin chao"]) body_hello_null
              hello_en_null eq_refl) as (_ & _ & _ & R).
  exact R.
Defined.
